(** * module_api: definition extraction over a Python token stream

    Shallow embedding of [src/src/module_api.py]: [find_definitions],
    [_read_signature], [filter_definitions], [_find_signature_name],
    [module_api], and the part of [tokenize.untokenize] it renders with.

    The tokenizer ([tokenize.generate_tokens]) is an external collaborator:
    every operation below takes the token list it yields for a source
    string. Python generators become a lazy sequence that may end in an
    exception ([lazy_seq]); [next(gen)] on an exhausted stream becomes the
    error it raises. *)

From Stdlib Require Import ZArith List Bool Ascii String Lia.
Import ListNotations.
Open Scope string_scope.
Open Scope list_scope.

(** ** Tokens *)

(** [TokenInfo.exact_type]; operators other than the ones the code tests
    are lumped into [OP]. *)
Inductive ttype :=
| NAME | NUMBER | STRING | NEWLINE | NL | INDENT | DEDENT | COMMENT
| ENDMARKER | COLON | LPAR | RPAR | LSQB | RSQB | LBRACE | RBRACE | OP.

Definition ttype_eqb (a b : ttype) : bool :=
  match a, b with
  | NAME, NAME | NUMBER, NUMBER | STRING, STRING | NEWLINE, NEWLINE
  | NL, NL | INDENT, INDENT | DEDENT, DEDENT | COMMENT, COMMENT
  | ENDMARKER, ENDMARKER | COLON, COLON | LPAR, LPAR | RPAR, RPAR
  | LSQB, LSQB | RSQB, RSQB | LBRACE, LBRACE | RBRACE, RBRACE | OP, OP => true
  | _, _ => false
  end.

(** [TokenInfo(type, string, start, end, line)]; positions are
    (row, column), rows counted from 1. *)
Record token := mk_token {
  exact_type : ttype;
  tstring : string;
  tstart : nat * nat;
  tend : nat * nat;
  tline : string
}.

(** Exceptions the extraction can raise. *)
Inductive error :=
(** [next(gen)] inside [_read_signature] on an exhausted token stream; the
    [StopIteration] escapes the [find_definitions] generator (as a
    [RuntimeError] under PEP 479). *)
| StreamExhausted
(** [ValueError("Unable to find signature name in token stream")]. *)
| NoSignatureName
(** [next(_tokens)] in [_find_signature_name] when nothing follows the
    keyword; escapes the [filter_definitions] generator. *)
| NameStopIteration
(** [ValueError] of [Untokenizer.add_whitespace]. *)
| UntokenizeOrder
(** [IndexError] of [indents.pop()] in [Untokenizer.untokenize]. *)
| IndentPop.

Inductive result (A : Type) :=
| Ok (a : A)
| Err (e : error).
Arguments Ok {A} a.
Arguments Err {A} e.

(** A Python generator that yields values of [A] and may raise. *)
Inductive lazy_seq (A : Type) :=
| LNil
| LErr (e : error)
| LCons (a : A) (rest : lazy_seq A).
Arguments LNil {A}.
Arguments LErr {A} e.
Arguments LCons {A} a rest.

(** [tok.type == token.NAME and tok.string == s] *)
Definition is_name_str (s : string) (t : token) : bool :=
  ttype_eqb (exact_type t) NAME && String.eqb (tstring t) s.

Definition is_def_kw (t : token) : bool :=
  is_name_str "def" t || is_name_str "class" t.

Definition is_colon (t : token) : bool := ttype_eqb (exact_type t) COLON.

(** ** [_read_signature] *)

(** [while tok.exact_type != token.COLON or parens > 0: ...; tok = next(gen)]
    followed by [signature.append(tok)]: returns the signature from [tok]
    through the terminating colon and the stream after it. *)
Definition paren_step (parens : Z) (tok : token) : Z :=
  match exact_type tok with
  | LPAR => (parens + 1)%Z
  | RPAR => (parens - 1)%Z
  | _ => parens
  end.

Fixpoint read_header (parens : Z) (tok : token) (gen : list token)
  : result (list token * list token) :=
  if negb (is_colon tok) || (parens >? 0)%Z then
    let parens' := paren_step parens tok in
    match gen with
    | [] => Err StreamExhausted
    | tok' :: gen' =>
        match read_header parens' tok' gen' with
        | Ok (sig, rest) => Ok (tok :: sig, rest)
        | Err e => Err e
        end
    end
  else Ok ([tok], gen).

Definition is_doc_tok (t : token) : bool :=
  match exact_type t with
  | NEWLINE | INDENT | STRING => true
  | _ => false
  end.

Definition is_string_tok (t : token) : bool := ttype_eqb (exact_type t) STRING.

(** [while tok.exact_type in (NEWLINE, INDENT, STRING): docstring.append(tok);
    tok = next(gen)]: returns the run starting at [tok] and the stream after
    the first token outside the run; that token was taken by [next(gen)]
    and is in neither. *)
Fixpoint read_docstring (tok : token) (gen : list token)
  : result (list token * list token) :=
  if is_doc_tok tok then
    match gen with
    | [] => Err StreamExhausted
    | tok' :: gen' =>
        match read_docstring tok' gen' with
        | Ok (doc, rest) => Ok (tok :: doc, rest)
        | Err e => Err e
        end
    end
  else Ok ([], gen).

Definition read_signature (include_docstring : bool) (tok : token)
    (gen : list token) : result (list token * list token) :=
  match read_header 0 tok gen with
  | Err e => Err e
  | Ok (signature, gen1) =>
      if include_docstring then
        match gen1 with
        | [] => Err StreamExhausted
        | tok' :: gen2 =>
            match read_docstring tok' gen2 with
            | Err e => Err e
            | Ok (docstring, gen3) =>
                if existsb is_string_tok docstring
                then Ok (signature ++ docstring, gen3)
                else Ok (signature, gen3)
            end
        end
      else Ok (signature, gen1)
  end.

Definition read_function := read_signature.
Definition read_class := read_signature.

(** ** [find_definitions] *)

(** The generator's [for tok in gen] loop; [fuel] only bounds the recursion
    (each round consumes at least one token, see [find_definitions_eq]). *)
Fixpoint find_defs_fuel (fuel : nat) (include_docstring : bool)
    (gen : list token) : lazy_seq (list token) :=
  match fuel with
  | O => LNil
  | S fuel' =>
      match gen with
      | [] => LNil
      | tok :: gen' =>
          if is_name_str "def" tok then
            match read_function include_docstring tok gen' with
            | Err e => LErr e
            | Ok (d, rest) => LCons d (find_defs_fuel fuel' include_docstring rest)
            end
          else if is_name_str "class" tok then
            match read_class include_docstring tok gen' with
            | Err e => LErr e
            | Ok (d, rest) => LCons d (find_defs_fuel fuel' include_docstring rest)
            end
          else find_defs_fuel fuel' include_docstring gen'
      end
  end.

(** [find_definitions(source_s, include_docstring=...)], where [toks] is
    [generate_tokens(io.StringIO(source_s).readline)]. *)
Definition find_definitions (include_docstring : bool) (toks : list token)
  : lazy_seq (list token) :=
  find_defs_fuel (S (List.length toks)) include_docstring toks.

(** ** [filter_definitions] and [_find_signature_name] *)

Inductive DefType := PUBLIC | PRIVATE | ALL.

Fixpoint find_signature_name (tokens : list token) : result token :=
  match tokens with
  | [] => Err NoSignatureName
  | tok :: rest =>
      if ttype_eqb (exact_type tok) NAME
         && (String.eqb (tstring tok) "def" || String.eqb (tstring tok) "class")
      then match rest with
           | [] => Err NameStopIteration
           | name_tok :: _ => Ok name_tok
           end
      else find_signature_name rest
  end.

(** [name.startswith("_")] *)
Definition startswith_us (s : string) : bool := String.prefix "_" s.

Definition keeps (def_type : DefType) (name : string) : bool :=
  match def_type with
  | ALL => true
  | PUBLIC => negb (startswith_us name)
  | PRIVATE => startswith_us name
  end.

Fixpoint filter_definitions (def_type : DefType) (defs : lazy_seq (list token))
  : lazy_seq (list token) :=
  match defs with
  | LNil => LNil
  | LErr e => LErr e
  | LCons defn rest =>
      match find_signature_name defn with
      | Err e => LErr e
      | Ok name_tok =>
          if keeps def_type (tstring name_tok)
          then LCons defn (filter_definitions def_type rest)
          else filter_definitions def_type rest
      end
  end.

(** ** Rendering: [tokenize.untokenize] on full 5-tuples *)

(** The class [Untokenizer] of CPython's [tokenize] module (3.8 to 3.12);
    [generate_tokens] yields no [ENCODING] token, so that branch is left
    out. [self.tokens] is the list [out]; the result is ["".join(out)]. *)

Definition newline_char : ascii := "010"%char.
Definition backslash_char : ascii := "092"%char.
Definition bsnl : string := String backslash_char (String newline_char EmptyString).

Fixpoint repeat_str (s : string) (n : nat) : string :=
  match n with
  | O => EmptyString
  | S n' => String.append s (repeat_str s n')
  end.

Definition spaces (n : nat) : string := repeat_str " " n.

(** [Untokenizer.add_whitespace(start)] *)
Definition add_whitespace (start : nat * nat) (out : list string)
    (prev_row prev_col : nat) : result (list string) :=
  let '(row, col) := start in
  if Nat.ltb row prev_row || (Nat.eqb row prev_row && Nat.ltb col prev_col) then
    Err UntokenizeOrder
  else
    let row_offset := row - prev_row in
    let '(out1, pc) :=
      if Nat.eqb row_offset 0 then (out, prev_col)
      else (out ++ [repeat_str bsnl row_offset], 0) in
    let col_offset := col - pc in
    Ok (if Nat.eqb col_offset 0 then out1 else out1 ++ [spaces col_offset]).

Definition is_newline_or_nl (ty : ttype) : bool :=
  match ty with
  | NEWLINE | NL => true
  | _ => false
  end.

(** [Untokenizer.untokenize]: [indents] is kept with its last element
    ([indents[-1]]) first. *)
Fixpoint untok_loop (toks : list token) (out : list string)
    (prev_row prev_col : nat) (indents : list string) (startline : bool)
  : result string :=
  match toks with
  | [] => Ok (String.concat "" out)
  | t :: r =>
      match exact_type t with
      | ENDMARKER => Ok (String.concat "" out)
      | INDENT => untok_loop r out prev_row prev_col (tstring t :: indents) startline
      | DEDENT =>
          match indents with
          | [] => Err IndentPop
          | _ :: indents' =>
              untok_loop r out (fst (tend t)) (snd (tend t)) indents' startline
          end
      | ty =>
          let '(out1, pc1, sl1) :=
            if is_newline_or_nl ty then (out, prev_col, true)
            else
              match startline, indents with
              | true, indent :: _ =>
                  if Nat.leb (String.length indent) (snd (tstart t))
                  then (out ++ [indent], String.length indent, false)
                  else (out, prev_col, false)
              | _, _ => (out, prev_col, startline)
              end in
          match add_whitespace (tstart t) out1 prev_row pc1 with
          | Err e => Err e
          | Ok out2 =>
              let out3 := out2 ++ [tstring t] in
              if is_newline_or_nl ty
              then untok_loop r out3 (S (fst (tend t))) 0 indents sl1
              else untok_loop r out3 (fst (tend t)) (snd (tend t)) indents sl1
          end
      end
  end.

Definition untokenize (toks : list token) : result string :=
  untok_loop toks [] 1 0 [] false.

(** [s.lstrip("\\\n")]: drops every leading backslash and newline. *)
Fixpoint lstrip_bsnl (s : string) : string :=
  match s with
  | EmptyString => EmptyString
  | String c s' =>
      if Ascii.eqb c backslash_char || Ascii.eqb c newline_char
      then lstrip_bsnl s' else s
  end.

(** ** [module_api] *)

(** [untokenize(d).lstrip("\\\n")] *)
Definition render (d : list token) : result string :=
  match untokenize d with
  | Err e => Err e
  | Ok s => Ok (lstrip_bsnl s)
  end.

(** [[untokenize(d).lstrip("\\\n") for d in filtered_defs]] *)
Fixpoint render_all (defs : lazy_seq (list token)) : result (list string) :=
  match defs with
  | LNil => Ok []
  | LErr e => Err e
  | LCons d rest =>
      match render d with
      | Err e => Err e
      | Ok s =>
          match render_all rest with
          | Err e => Err e
          | Ok l => Ok (s :: l)
          end
      end
  end.

Definition module_api (def_type : DefType) (include_docstring : bool)
    (toks : list token) : result (list string) :=
  render_all (filter_definitions def_type (find_definitions include_docstring toks)).

(** ** Token streams of concrete sources

    Each list is what [generate_tokens] yields for the source named in its
    comment: [tk ty s row col line] is the token of text [s] starting at
    [(row, col)] on the physical line [line]. *)

Definition tk (ty : ttype) (s : string) (row col : nat) (line : string) : token :=
  mk_token ty s (row, col) (row, col + String.length s) line.

Definition nl : string := String newline_char EmptyString.
Definition dq3 : string :=
  String "034"%char (String "034"%char (String "034"%char EmptyString)).

(** [def g():\n    return 1\n] *)
Definition g_l1 : string := String.append "def g():" nl.
Definition g_l2 : string := String.append "    return 1" nl.
Definition toks_g : list token :=
  [tk NAME "def" 1 0 g_l1; tk NAME "g" 1 4 g_l1; tk LPAR "(" 1 5 g_l1;
   tk RPAR ")" 1 6 g_l1; tk COLON ":" 1 7 g_l1; tk NEWLINE nl 1 8 g_l1;
   tk INDENT "    " 2 0 g_l2; tk NAME "return" 2 4 g_l2;
   tk NUMBER "1" 2 11 g_l2; tk NEWLINE nl 2 12 g_l2;
   tk DEDENT "" 3 0 ""; tk ENDMARKER "" 3 0 ""].

(** [def foo(a, b=(1,2)):\n    <the string doc in triple double quotes>\n    pass\n] *)
Definition foo_l1 : string := String.append "def foo(a, b=(1,2)):" nl.
Definition foo_doc : string := String.append dq3 (String.append "doc" dq3).
Definition foo_l2 : string := String.append "    " (String.append foo_doc nl).
Definition foo_l3 : string := String.append "    pass" nl.
Definition toks_foo : list token :=
  [tk NAME "def" 1 0 foo_l1; tk NAME "foo" 1 4 foo_l1; tk LPAR "(" 1 7 foo_l1;
   tk NAME "a" 1 8 foo_l1; tk OP "," 1 9 foo_l1; tk NAME "b" 1 11 foo_l1;
   tk OP "=" 1 12 foo_l1; tk LPAR "(" 1 13 foo_l1; tk NUMBER "1" 1 14 foo_l1;
   tk OP "," 1 15 foo_l1; tk NUMBER "2" 1 16 foo_l1; tk RPAR ")" 1 17 foo_l1;
   tk RPAR ")" 1 18 foo_l1; tk COLON ":" 1 19 foo_l1; tk NEWLINE nl 1 20 foo_l1;
   tk INDENT "    " 2 0 foo_l2; tk STRING foo_doc 2 4 foo_l2;
   tk NEWLINE nl 2 13 foo_l2; tk NAME "pass" 3 4 foo_l3;
   tk NEWLINE nl 3 8 foo_l3; tk DEDENT "" 4 0 ""; tk ENDMARKER "" 4 0 ""].

(** [class A:\n    def f(self):\n        pass\n] *)
Definition cls_l1 : string := String.append "class A:" nl.
Definition cls_l2 : string := String.append "    def f(self):" nl.
Definition cls_l3 : string := String.append "        pass" nl.
Definition cls_method : token := tk NAME "def" 2 4 cls_l2.
Definition toks_cls : list token :=
  [tk NAME "class" 1 0 cls_l1; tk NAME "A" 1 6 cls_l1; tk COLON ":" 1 7 cls_l1;
   tk NEWLINE nl 1 8 cls_l1; tk INDENT "    " 2 0 cls_l2; cls_method;
   tk NAME "f" 2 8 cls_l2; tk LPAR "(" 2 9 cls_l2; tk NAME "self" 2 10 cls_l2;
   tk RPAR ")" 2 14 cls_l2; tk COLON ":" 2 15 cls_l2; tk NEWLINE nl 2 16 cls_l2;
   tk INDENT "        " 3 0 cls_l3; tk NAME "pass" 3 8 cls_l3;
   tk NEWLINE nl 3 12 cls_l3; tk DEDENT "" 4 0 ""; tk DEDENT "" 4 0 "";
   tk ENDMARKER "" 4 0 ""].

(** [def f() -> {1: 2}: pass\n] *)
Definition ann_l1 : string := String.append "def f() -> {1: 2}: pass" nl.
Definition toks_ann : list token :=
  [tk NAME "def" 1 0 ann_l1; tk NAME "f" 1 4 ann_l1; tk LPAR "(" 1 5 ann_l1;
   tk RPAR ")" 1 6 ann_l1; tk OP "->" 1 8 ann_l1; tk LBRACE "{" 1 11 ann_l1;
   tk NUMBER "1" 1 12 ann_l1; tk COLON ":" 1 13 ann_l1; tk NUMBER "2" 1 15 ann_l1;
   tk RBRACE "}" 1 16 ann_l1; tk COLON ":" 1 17 ann_l1; tk NAME "pass" 1 19 ann_l1;
   tk NEWLINE nl 1 23 ann_l1; tk ENDMARKER "" 2 0 ""].

(** [def ():\n    pass\n]: tokenizes, though it is not valid Python. *)
Definition noname_l1 : string := String.append "def ():" nl.
Definition noname_l2 : string := String.append "    pass" nl.
Definition toks_noname : list token :=
  [tk NAME "def" 1 0 noname_l1; tk LPAR "(" 1 4 noname_l1;
   tk RPAR ")" 1 5 noname_l1; tk COLON ":" 1 6 noname_l1;
   tk NEWLINE nl 1 7 noname_l1; tk INDENT "    " 2 0 noname_l2;
   tk NAME "pass" 2 4 noname_l2; tk NEWLINE nl 2 8 noname_l2;
   tk DEDENT "" 3 0 ""; tk ENDMARKER "" 3 0 ""].


(** [def f):\n    pass\n]: an unmatched [)] in the header (the tokenizer of
    CPython up to 3.11 lets it through). *)
Definition rpar_l1 : string := String.append "def f):" nl.
Definition rpar_l2 : string := String.append "    pass" nl.
Definition toks_rpar : list token :=
  [tk NAME "def" 1 0 rpar_l1; tk NAME "f" 1 4 rpar_l1; tk RPAR ")" 1 5 rpar_l1;
   tk COLON ":" 1 6 rpar_l1; tk NEWLINE nl 1 7 rpar_l1;
   tk INDENT "    " 2 0 rpar_l2; tk NAME "pass" 2 4 rpar_l2;
   tk NEWLINE nl 2 8 rpar_l2; tk DEDENT "" 3 0 ""; tk ENDMARKER "" 3 0 ""].

(** ** Auxiliary definitions for the statements *)

Fixpoint of_list {A} (l : list A) : lazy_seq A :=
  match l with
  | [] => LNil
  | a :: l' => LCons a (of_list l')
  end.

(** The generator that first yields [l], then continues as [s]. *)
Fixpoint app_seq {A} (l : list A) (s : lazy_seq A) : lazy_seq A :=
  match l with
  | [] => s
  | a :: l' => LCons a (app_seq l' s)
  end.

(** All values a generator yields before it stops or raises. *)
Fixpoint seq_to_result {A} (s : lazy_seq A) : result (list A) :=
  match s with
  | LNil => Ok []
  | LErr e => Err e
  | LCons a s' =>
      match seq_to_result s' with
      | Ok l => Ok (a :: l)
      | Err e => Err e
      end
  end.

(** The parenthesis depth after [toks], counted from [d]. *)
Definition depth_from (d : Z) (toks : list token) : Z := fold_left paren_step toks d.

(** Reading of the claims on definition boundaries: the tokens from [tok]
    through the first colon met at parenthesis depth exactly 0. *)
Fixpoint header_to_colon0 (depth : Z) (tok : token) (gen : list token) : list token :=
  if is_colon tok && Z.eqb depth 0 then [tok]
  else
    match gen with
    | [] => [tok]
    | tok' :: gen' => tok :: header_to_colon0 (paren_step depth tok) tok' gen'
    end.

(** One definition per [def]/[class] keyword token, in source order, each
    running from its keyword through its depth-zero colon. *)
Fixpoint claim_defs (toks : list token) : list (list token) :=
  match toks with
  | [] => []
  | tok :: rest =>
      if is_def_kw tok then header_to_colon0 0 tok rest :: claim_defs rest
      else claim_defs rest
  end.

(** Well-formed header, as in syntactically valid Python: a colon at depth 0
    is reached, the depth never drops below 0 before it, and no other
    [def]/[class] keyword occurs inside. *)
Fixpoint header_ok (depth : Z) (tok : token) (gen : list token) : bool :=
  if is_colon tok && Z.eqb depth 0 then true
  else
    Z.leb 0 depth &&
    match gen with
    | [] => false
    | tok' :: gen' => negb (is_def_kw tok') && header_ok (paren_step depth tok) tok' gen'
    end.

Fixpoint valid_headers (toks : list token) : bool :=
  match toks with
  | [] => true
  | tok :: rest => (if is_def_kw tok then header_ok 0 tok rest else true) && valid_headers rest
  end.

(** Every colon in [toks] is met at parenthesis depth > 0, counting from
    [depth]: no colon there can end a header. *)
Fixpoint colons_nested (depth : Z) (toks : list token) : bool :=
  match toks with
  | [] => true
  | t :: r => (negb (is_colon t) || Z.ltb 0 depth) && colons_nested (paren_step depth t) r
  end.

(** [class _Hidden:\n    pass\n] *)
Definition hid_l1 : string := String.append "class _Hidden:" nl.
Definition hid_l2 : string := String.append "    pass" nl.
Definition toks_hidden : list token :=
  [tk NAME "class" 1 0 hid_l1; tk NAME "_Hidden" 1 6 hid_l1;
   tk COLON ":" 1 13 hid_l1; tk NEWLINE nl 1 14 hid_l1;
   tk INDENT "    " 2 0 hid_l2; tk NAME "pass" 2 4 hid_l2;
   tk NEWLINE nl 2 8 hid_l2; tk DEDENT "" 3 0 ""; tk ENDMARKER "" 3 0 ""].

(** The tail of [def g():\n    return 1\ndef h(x)\n]: the header of [h]
    has no colon. *)
Definition h_l3 : string := String.append "def h(x)" nl.
Definition toks_h_open : list token :=
  [tk NAME "def" 3 0 h_l3; tk NAME "h" 3 4 h_l3; tk LPAR "(" 3 5 h_l3;
   tk NAME "x" 3 6 h_l3; tk RPAR ")" 3 7 h_l3; tk NEWLINE nl 3 8 h_l3;
   tk ENDMARKER "" 4 0 ""].

(** [_find_signature_name(d).string.startswith("_")], false when it raises. *)
Definition is_private_def (d : list token) : bool :=
  match find_signature_name d with
  | Ok name_tok => startswith_us (tstring name_tok)
  | Err _ => false
  end.






(** ** [handler], [main] and [cli] *)

(** Failures of the command-line entry point. *)
Inductive handler_error :=
(** [open(filename)] raising [FileNotFoundError] (or any [OSError]). *)
| FileNotFound (filename : string)
(** An exception raised by [module_api]. *)
| ModuleError (e : error).

Inductive hresult (A : Type) :=
| HOk (a : A)
| HErr (e : handler_error).
Arguments HOk {A} a.
Arguments HErr {A} e.

(** The file system as seen by [open(filename).read()] followed by the
    tokenizer: [fs filename = Some toks] when the file exists and its
    contents tokenize to [toks]. *)
Definition file_system := string -> option (list token).

(** The parsed [argparse.Namespace]. *)
Record namespace := mk_namespace {
  ns_files : list string;
  ns_def_type : DefType;
  ns_docstrings : bool;
  ns_debug : bool
}.

Definition sep2 : string := String.append nl nl.

(** The body of [for filename in files]: one file's block
    ["\n\n".join([f"# {filename}", *api])]. *)
Definition extract_file (fs : file_system) (def_type : DefType) (docstrings : bool)
    (filename : string) : hresult string :=
  match fs filename with
  | None => HErr (FileNotFound filename)
  | Some toks =>
      match module_api def_type docstrings toks with
      | Err e => HErr (ModuleError e)
      | Ok api => HOk (String.concat sep2 (String.append "# " filename :: api))
      end
  end.

Fixpoint handler_loop (fs : file_system) (def_type : DefType) (docstrings : bool)
    (files : list string) : hresult (list string) :=
  match files with
  | [] => HOk []
  | filename :: rest =>
      match extract_file fs def_type docstrings filename with
      | HErr e => HErr e
      | HOk api_s =>
          match handler_loop fs def_type docstrings rest with
          | HErr e => HErr e
          | HOk out_apis => HOk (api_s :: out_apis)
          end
      end
  end.

(** [handler(ns)]: on success, the text [print(out_s)] writes to stdout
    (the return value is always 0). *)
Definition handler (fs : file_system) (ns : namespace) : hresult string :=
  match handler_loop fs (ns_def_type ns) (ns_docstrings ns) (ns_files ns) with
  | HErr e => HErr e
  | HOk out_apis => HOk (String.append (String.concat sep2 out_apis) nl)
  end.

(** What [main] does after [parse_args]: return 0 having printed
    [stdout], return [str(e)] (here the exception [e] itself), or re-raise. *)
Inductive main_outcome :=
| MReturn (code : nat) (stdout : string)
| MReturnMsg (e : handler_error)
| MRaise (e : handler_error).

Definition main (fs : file_system) (ns : namespace) : main_outcome :=
  match handler fs ns with
  | HOk stdout => MReturn 0 stdout
  | HErr e => if ns_debug ns then MRaise e else MReturnMsg e
  end.

(** [raise SystemExit(main(args))] once [parse_args] has returned a
    namespace: an int is the exit status; a string is printed to stderr with
    status 1; an uncaught exception exits with 1. The exits of [parse_args]
    itself ([--help] and [--version] with 0, usage errors with 2) happen
    before [handler] runs and are not part of this model. *)
Definition cli_exit_status (o : main_outcome) : nat :=
  match o with
  | MReturn code _ => code
  | MReturnMsg _ => 1
  | MRaise _ => 1
  end.

(** Membership in what a generator yields before it stops or raises. *)
Fixpoint in_seq {A} (a : A) (s : lazy_seq A) : Prop :=
  match s with
  | LNil => False
  | LErr _ => False
  | LCons b s' => b = a \/ in_seq a s'
  end.

Fixpoint seq_count {A} (s : lazy_seq A) : nat :=
  match s with
  | LNil => 0
  | LErr _ => 0
  | LCons _ s' => S (seq_count s')
  end.

(** [x = 1\n] *)
Definition asg_l1 : string := String.append "x = 1" nl.
Definition toks_asg : list token :=
  [tk NAME "x" 1 0 asg_l1; tk OP "=" 1 2 asg_l1; tk NUMBER "1" 1 4 asg_l1;
   tk NEWLINE nl 1 5 asg_l1; tk ENDMARKER "" 2 0 ""].

(** A directory holding [a.py] (the source of [toks_foo]) and [b.py] (the
    source of [toks_asg]). *)
Definition demo_fs : file_system :=
  fun n => if String.eqb n "a.py" then Some toks_foo
           else if String.eqb n "b.py" then Some toks_asg
           else None.

(** [module-api a.py missing.py b.py] *)
Definition demo_ns : namespace :=
  mk_namespace ["a.py"; "missing.py"; "b.py"] PUBLIC true false.

(** ** Properties *)

Lemma is_def_kw_iff (t : token) :
  is_def_kw t =
  ttype_eqb (exact_type t) NAME
  && (String.eqb (tstring t) "def" || String.eqb (tstring t) "class").
Proof.
  unfold is_def_kw, is_name_str.
  destruct (ttype_eqb (exact_type t) NAME); reflexivity.
Qed.

Lemma read_header_suffix (p : Z) (t : token) (g sig rest : list token) :
  read_header p t g = Ok (sig, rest) ->
  exists sig', sig = t :: sig' /\ g = sig' ++ rest.
Proof.
  revert p t sig. induction g as [|t' g IH]; intros p t sig H; simpl in H.
  - destruct (negb (is_colon t) || (p >? 0)%Z); inversion H; subst.
    exists []. split; reflexivity.
  - destruct (negb (is_colon t) || (p >? 0)%Z).
    + destruct (read_header (paren_step p t) t' g) as [[s r]|e] eqn:E;
        inversion H; subst.
      apply IH in E. destruct E as [s' [-> ->]].
      exists (t' :: s'). split; reflexivity.
    + inversion H; subst. exists []. split; reflexivity.
Qed.

Lemma read_docstring_suffix (t : token) (g doc rest : list token) :
  read_docstring t g = Ok (doc, rest) ->
  exists x, t :: g = doc ++ x :: rest.
Proof.
  revert t doc. induction g as [|t' g IH]; intros t doc H; simpl in H.
  - destruct (is_doc_tok t); inversion H; subst. exists t. reflexivity.
  - destruct (is_doc_tok t).
    + destruct (read_docstring t' g) as [[s r]|e] eqn:E; inversion H; subst.
      apply IH in E. destruct E as [x Ex]. exists x. simpl. rewrite Ex. reflexivity.
    + inversion H; subst. exists t. reflexivity.
Qed.

Lemma read_signature_shorter (inc : bool) (t : token) (g d rest : list token) :
  read_signature inc t g = Ok (d, rest) -> List.length rest <= List.length g.
Proof.
  unfold read_signature.
  destruct (read_header 0 t g) as [[sig g1]|e] eqn:E; [|discriminate].
  apply read_header_suffix in E. destruct E as [sig' [_ Eg]].
  assert (L1 : List.length g1 <= List.length g)
    by (subst g; rewrite length_app; lia).
  destruct inc.
  - destruct g1 as [|t' g2]; [discriminate|].
    destruct (read_docstring t' g2) as [[doc g3]|e] eqn:D; [|discriminate].
    apply read_docstring_suffix in D. destruct D as [x Dx].
    apply (f_equal (@List.length token)) in Dx. rewrite length_app in Dx.
    simpl in Dx, L1.
    destruct (existsb is_string_tok doc); intros H; inversion H; subst; lia.
  - intros H; inversion H; subst; exact L1.
Qed.

Lemma find_defs_fuel_enough (inc : bool) (n m : nat) (g : list token) :
  List.length g < n -> List.length g < m ->
  find_defs_fuel n inc g = find_defs_fuel m inc g.
Proof.
  revert m g. induction n as [|n IH]; intros m g Hn Hm; [lia|].
  destruct m as [|m]; [lia|].
  destruct g as [|t g]; [reflexivity|]. simpl in Hn, Hm. simpl.
  unfold read_function, read_class.
  destruct (is_name_str "def" t); [|destruct (is_name_str "class" t)];
    try (apply IH; lia);
    (destruct (read_signature inc t g) as [[d rest]|e] eqn:E; [|reflexivity];
     apply read_signature_shorter in E; f_equal; apply IH; lia).
Qed.

Lemma find_defs_fuel_S (inc : bool) (n : nat) (t : token) (g : list token) :
  find_defs_fuel (S n) inc (t :: g) =
  if is_name_str "def" t then
    match read_signature inc t g with
    | Err e => LErr e
    | Ok (d, rest) => LCons d (find_defs_fuel n inc rest)
    end
  else if is_name_str "class" t then
    match read_signature inc t g with
    | Err e => LErr e
    | Ok (d, rest) => LCons d (find_defs_fuel n inc rest)
    end
  else find_defs_fuel n inc g.
Proof. reflexivity. Qed.

(** The [for tok in gen] loop, one round at a time. *)
Lemma find_definitions_eq (inc : bool) (t : token) (g : list token) :
  find_definitions inc (t :: g) =
  if is_def_kw t then
    match read_signature inc t g with
    | Err e => LErr e
    | Ok (d, rest) => LCons d (find_definitions inc rest)
    end
  else find_definitions inc g.
Proof.
  unfold find_definitions. cbn [List.length]. rewrite find_defs_fuel_S.
  unfold is_def_kw.
  destruct (is_name_str "def" t); [|destruct (is_name_str "class" t)]; cbn [orb];
    try (destruct (read_signature inc t g) as [[d rest]|e] eqn:E; [|reflexivity];
         apply read_signature_shorter in E; f_equal;
         apply find_defs_fuel_enough; lia).
Qed.

Lemma find_definitions_nil (inc : bool) : find_definitions inc [] = LNil.
Proof. reflexivity. Qed.

(** *** Definition boundaries without docstrings *)

Lemma header_ok_read_header (d : Z) (t : token) (g : list token) :
  header_ok d t g = true ->
  exists h rest,
    g = h ++ rest /\ read_header d t g = Ok (t :: h, rest) /\
    header_to_colon0 d t g = t :: h /\
    forallb (fun x => negb (is_def_kw x)) h = true.
Proof.
  revert d t. induction g as [|t' g IH]; intros d t H.
  - simpl in H. exists [], []. simpl.
    destruct (is_colon t && (d =? 0)%Z) eqn:C; [|rewrite andb_false_r in H; discriminate].
    apply andb_prop in C. destruct C as [C1 C2]. apply Z.eqb_eq in C2. subst d.
    rewrite C1. repeat split; reflexivity.
  - cbn [header_ok] in H.
    destruct (is_colon t && (d =? 0)%Z) eqn:C.
    + apply andb_prop in C. destruct C as [C1 C2]. apply Z.eqb_eq in C2. subst d.
      exists [], (t' :: g). simpl. rewrite C1. repeat split; reflexivity.
    + apply andb_prop in H. destruct H as [Hd H].
      apply andb_prop in H. destruct H as [Hk H].
      destruct (IH _ _ H) as [h [rest [Eg [Er [Ec Ef]]]]].
      exists (t' :: h), rest. subst g.
      assert (Hc : negb (is_colon t) || (d >? 0)%Z = true).
      { apply Z.leb_le in Hd. destruct (is_colon t); [|reflexivity].
        simpl in C. apply Z.eqb_neq in C. simpl. apply Z.gtb_lt. lia. }
      repeat split.
      * cbn [read_header]. rewrite Hc. rewrite Er. reflexivity.
      * cbn [header_to_colon0]. rewrite C. rewrite Ec. reflexivity.
      * simpl. rewrite Hk, Ef. reflexivity.
Qed.

Lemma claim_defs_app_nokw (h rest : list token) :
  forallb (fun x => negb (is_def_kw x)) h = true ->
  claim_defs (h ++ rest) = claim_defs rest.
Proof.
  induction h as [|x h IH]; intros H; [reflexivity|].
  simpl in H. apply andb_prop in H. destruct H as [Hx H].
  simpl. apply negb_true_iff in Hx. rewrite Hx. apply IH, H.
Qed.

Lemma valid_headers_app (h rest : list token) :
  valid_headers (h ++ rest) = true -> valid_headers rest = true.
Proof.
  induction h as [|x h IH]; intros H; [exact H|].
  simpl in H. apply andb_prop in H. apply IH, H.
Qed.

Lemma claim_defs_count (toks : list token) :
  List.length (claim_defs toks) = List.length (List.filter is_def_kw toks).
Proof.
  induction toks as [|t r IH]; [reflexivity|].
  simpl. destruct (is_def_kw t); simpl; rewrite IH; reflexivity.
Qed.

(** C10: with docstring capture off, on a token stream whose definition
    headers are well formed (as in syntactically valid source), the scan
    yields exactly one Definition per [def]/[class] keyword token, in source
    order, each made of the tokens from its keyword through its depth-zero
    colon and nothing after it; a keyword right after another header (a
    method on a class's first body line) is found. *)
Theorem find_definitions_no_docstring (toks : list token) :
  valid_headers toks = true ->
  find_definitions false toks = of_list (claim_defs toks) /\
  List.length (claim_defs toks) = List.length (List.filter is_def_kw toks).
Proof.
  intros Hv. split; [|apply claim_defs_count].
  remember (S (List.length toks)) as n eqn:En.
  assert (Hn : List.length toks < n) by lia. clear En.
  revert toks Hv Hn. induction n as [|n IH]; intros toks Hv Hn; [lia|].
  destruct toks as [|t r]; [reflexivity|].
  rewrite find_definitions_eq. simpl in Hv, Hn.
  apply andb_prop in Hv. destruct Hv as [Hk Hr].
  cbn [claim_defs]. destruct (is_def_kw t).
  - destruct (header_ok_read_header 0 t r Hk) as [h [rest [Eg [Er [Ec Ef]]]]].
    unfold read_signature. rewrite Er. rewrite Ec. cbn [of_list]. f_equal.
    subst r. rewrite claim_defs_app_nokw by exact Ef.
    apply IH.
    + apply valid_headers_app with (h := h). exact Hr.
    + rewrite length_app in Hn. lia.
  - apply IH; [exact Hr | lia].
Qed.

Lemma find_definitions_no_docstring_witness :
  valid_headers toks_cls = true /\
  find_definitions false toks_cls = of_list (claim_defs toks_cls) /\
  List.length (claim_defs toks_cls) = 2.
Proof.
  assert (H : valid_headers toks_cls = true) by (vm_compute; reflexivity).
  destruct (find_definitions_no_docstring toks_cls H) as [H1 H2].
  split; [exact H|]. split; [exact H1|].
  rewrite H2. vm_compute. reflexivity.
Defined.

(** *** Concrete runs *)

(** C1 (code defect): with docstring capture on (the default), a method on
    the first body line of a class is not extracted in ALL mode: the source
    [class A:\n    def f(self):\n        pass\n] has two [def]/[class]
    keyword tokens but yields one Definition. *)
Theorem all_mode_misses_first_method :
  List.length (List.filter is_def_kw toks_cls) = 2 /\
  find_definitions true toks_cls = of_list [firstn 3 toks_cls] /\
  module_api ALL true toks_cls = Ok ["class A:"].
Proof. vm_compute. repeat split. Qed.

(** C2 (code defect): after [class A:], the docstring look-ahead buffers
    NEWLINE and INDENT, holds no string, and is discarded; but the token
    that ended the look-ahead, the method's [def] (index 5), was already
    taken from the stream: it is neither in the Definition (indices 0 to 2)
    nor in what is left for the Scanner (from index 6). *)
Theorem docstring_lookahead_drops_token :
  read_signature true (tk NAME "class" 1 0 cls_l1) (tl toks_cls)
    = Ok (firstn 3 toks_cls, skipn 6 toks_cls) /\
  nth_error toks_cls 5 = Some cls_method /\ is_def_kw cls_method = true.
Proof. vm_compute. repeat split. Qed.

(** C4: in [def f() -> {1: 2}: pass], the colon inside the dict literal of
    the return annotation is met at round-parenthesis depth 0 and ends the
    signature, whether or not docstrings are captured. *)
Theorem colon_in_braces_ends_header :
  (forall inc, exists rest,
     read_signature inc (tk NAME "def" 1 0 ann_l1) (tl toks_ann)
       = Ok (firstn 8 toks_ann, rest)) /\
  nth_error toks_ann 5 = Some (tk LBRACE "{" 1 11 ann_l1) /\
  nth_error toks_ann 7 = Some (tk COLON ":" 1 13 ann_l1) /\
  depth_from 0 (firstn 7 toks_ann) = 0%Z /\
  module_api ALL false toks_ann = Ok ["def f() -> {1:"].
Proof.
  split; [intros [|]; eexists; vm_compute; reflexivity|].
  vm_compute. repeat split.
Qed.

(** C5 refuted: [def g():\n    return 1\n] does not render as [def g():\n]. *)
Lemma no_docstring_render_not_line :
  module_api PUBLIC true toks_g <> Ok [g_l1].
Proof. vm_compute. discriminate. Qed.

(** C5 as amended: with docstrings on, in PUBLIC and in ALL mode,
    [def g():\n    return 1\n] renders as the single string [def g():],
    the header up to its colon, without the newline or the next line. *)
Theorem no_docstring_render :
  module_api PUBLIC true toks_g = Ok ["def g():"] /\
  module_api ALL true toks_g = Ok ["def g():"].
Proof. vm_compute. split; reflexivity. Qed.


(** C3 refuted: in [def f):], the colon is met at depth -1 and still ends
    the header, so termination is not "depth equals 0". *)
Lemma negative_depth_colon_terminates :
  read_signature false (tk NAME "def" 1 0 rpar_l1) (tl toks_rpar)
    = Ok (firstn 4 toks_rpar, skipn 4 toks_rpar) /\
  nth_error toks_rpar 3 = Some (tk COLON ":" 1 6 rpar_l1) /\
  depth_from 0 (firstn 3 toks_rpar) = (-1)%Z.
Proof. vm_compute. repeat split. Qed.

(** C9 refuted: in [def ():], no NAME token follows [def]; the filter does
    not fail but takes [(] as the name and keeps the Definition as public. *)
Lemma unnamed_definition_not_rejected :
  nth_error toks_noname 1 = Some (tk LPAR "(" 1 4 noname_l1) /\
  filter_definitions PUBLIC (find_definitions true toks_noname)
    = of_list [firstn 4 toks_noname] /\
  module_api PUBLIC true toks_noname = Ok ["def ():"].
Proof. vm_compute. repeat split. Qed.

(** *** Header termination *)

Lemma depth_from_cons (p : Z) (t : token) (l : list token) :
  depth_from p (t :: l) = depth_from (paren_step p t) l.
Proof. reflexivity. Qed.

Lemma read_header_colon (p : Z) (t : token) (g sig rest : list token) :
  read_header p t g = Ok (sig, rest) ->
  exists pre c,
    sig = pre ++ [c] /\ t :: g = sig ++ rest /\ is_colon c = true /\
    (depth_from p pre <= 0)%Z /\
    (forall pre1 c' post1, pre = pre1 ++ c' :: post1 -> is_colon c' = true ->
       (0 < depth_from p pre1)%Z).
Proof.
  revert p t sig. induction g as [|t' g IH]; intros p t sig H.
  - cbn [read_header] in H.
    destruct (negb (is_colon t) || (p >? 0)%Z) eqn:C; [discriminate|].
    inversion H; subst. apply orb_false_elim in C. destruct C as [C1 C2].
    apply negb_false_iff in C1. rewrite Z.gtb_ltb, Z.ltb_ge in C2.
    exists [], t. repeat split; auto.
    intros pre1 c' post1 E. destruct pre1; discriminate.
  - cbn [read_header] in H.
    destruct (negb (is_colon t) || (p >? 0)%Z) eqn:C.
    + destruct (read_header (paren_step p t) t' g) as [[s r]|e] eqn:E;
        [|discriminate].
      inversion H; subst.
      destruct (IH _ _ _ E) as [pre [c [Es [Eg [Hc [Hd Hn]]]]]].
      exists (t :: pre), c. subst s. repeat split; auto.
      * simpl. rewrite Eg. reflexivity.
      * intros pre1 c' post1 Ep Hc'. destruct pre1 as [|x pre1].
        -- inversion Ep; subst. rewrite Hc' in C. simpl in C.
           apply Z.gtb_lt in C. exact C.
        -- inversion Ep; subst. rewrite depth_from_cons. eapply Hn; eauto.
    + inversion H; subst. apply orb_false_elim in C. destruct C as [C1 C2].
      apply negb_false_iff in C1. rewrite Z.gtb_ltb, Z.ltb_ge in C2.
      exists [], t. repeat split; auto.
      intros pre1 c' post1 E. destruct pre1; discriminate.
Qed.

Lemma read_docstring_run (t : token) (g doc rest : list token) :
  read_docstring t g = Ok (doc, rest) -> forallb is_doc_tok doc = true.
Proof.
  revert t doc. induction g as [|t' g IH]; intros t doc H; cbn [read_docstring] in H.
  - destruct (is_doc_tok t); inversion H; reflexivity.
  - destruct (is_doc_tok t) eqn:D.
    + destruct (read_docstring t' g) as [[s r]|e] eqn:E; inversion H; subst.
      simpl. rewrite D. eapply IH; eauto.
    + inversion H; reflexivity.
Qed.

(** C3 as amended: the header of every Definition read ends with exactly
    one terminating colon, its last signature token, met at depth <= 0
    (depth 0 unless the header has an unmatched closing parenthesis); every
    colon before it was met at depth > 0 and kept as ordinary content; the
    depth starts at 0 on the keyword and moves by +1 on [(] and -1 on [)];
    only docstring-run tokens (no colon) may follow the terminator. *)
Theorem header_ends_at_first_shallow_colon (inc : bool) (t : token)
    (g d rest : list token) :
  read_signature inc t g = Ok (d, rest) ->
  exists pre c doc g1,
    d = pre ++ c :: doc /\ t :: g = pre ++ c :: g1 /\
    is_colon c = true /\ (depth_from 0 pre <= 0)%Z /\
    (forall pre1 c' post1, pre = pre1 ++ c' :: post1 -> is_colon c' = true ->
       (0 < depth_from 0 pre1)%Z) /\
    forallb is_doc_tok doc = true.
Proof.
  unfold read_signature.
  destruct (read_header 0 t g) as [[sig g1]|e] eqn:E; [|discriminate].
  destruct (read_header_colon _ _ _ _ _ E) as [pre [c [Es [Eg [Hc [Hd Hn]]]]]].
  subst sig. rewrite <- app_assoc in Eg. simpl in Eg.
  destruct inc.
  - destruct g1 as [|t' g2]; [discriminate|].
    destruct (read_docstring t' g2) as [[doc g3]|e] eqn:D; [|discriminate].
    pose proof (read_docstring_run _ _ _ _ D) as Hdoc.
    destruct (existsb is_string_tok doc); intros H; inversion H; subst.
    + exists pre, c, doc, (t' :: g2). rewrite <- app_assoc.
      repeat split; auto.
    + exists pre, c, [], (t' :: g2). repeat split; auto.
  - intros H; inversion H; subst.
    exists pre, c, []; eexists. repeat split; eauto.
Qed.

Lemma header_ends_at_first_shallow_colon_witness :
  read_signature true (tk NAME "def" 1 0 foo_l1) (tl toks_foo)
    = Ok (firstn 18 toks_foo, skipn 19 toks_foo) /\
  exists pre c doc g1,
    firstn 18 toks_foo = pre ++ c :: doc /\ toks_foo = pre ++ c :: g1 /\
    is_colon c = true /\ (depth_from 0 pre <= 0)%Z /\
    (forall pre1 c' post1, pre = pre1 ++ c' :: post1 -> is_colon c' = true ->
       (0 < depth_from 0 pre1)%Z) /\
    forallb is_doc_tok doc = true.
Proof.
  assert (H : read_signature true (tk NAME "def" 1 0 foo_l1) (tl toks_foo)
                = Ok (firstn 18 toks_foo, skipn 19 toks_foo))
    by (vm_compute; reflexivity).
  split; [exact H|].
  exact (header_ends_at_first_shallow_colon true _ _ _ _ H).
Defined.

(** *** Exhausted stream *)

Lemma read_header_app (p : Z) (t : token) (g x sig rest : list token) :
  read_header p t g = Ok (sig, rest) -> read_header p t (g ++ x) = Ok (sig, rest ++ x).
Proof.
  revert p t sig. induction g as [|t' g IH]; intros p t sig H; cbn [read_header] in *.
  - destruct (negb (is_colon t) || (p >? 0)%Z) eqn:C; inversion H; subst.
    destruct x; cbn [app read_header]; rewrite C; reflexivity.
  - rewrite <- app_comm_cons. cbn [read_header].
    destruct (negb (is_colon t) || (p >? 0)%Z); [|inversion H; subst; reflexivity].
    destruct (read_header (paren_step p t) t' g) as [[s r]|e] eqn:E; [|discriminate].
    inversion H; subst. rewrite (IH _ _ _ E). reflexivity.
Qed.

Lemma read_docstring_app (t : token) (g x doc rest : list token) :
  read_docstring t g = Ok (doc, rest) -> read_docstring t (g ++ x) = Ok (doc, rest ++ x).
Proof.
  revert t doc. induction g as [|t' g IH]; intros t doc H; cbn [read_docstring] in *.
  - destruct (is_doc_tok t) eqn:C; inversion H; subst.
    destruct x; cbn [app read_docstring]; rewrite C; reflexivity.
  - rewrite <- app_comm_cons. cbn [read_docstring].
    destruct (is_doc_tok t); [|inversion H; subst; reflexivity].
    destruct (read_docstring t' g) as [[s r]|e] eqn:E; [|discriminate].
    inversion H; subst. rewrite (IH _ _ E). reflexivity.
Qed.

Lemma read_signature_app (inc : bool) (t : token) (g x d rest : list token) :
  read_signature inc t g = Ok (d, rest) ->
  read_signature inc t (g ++ x) = Ok (d, rest ++ x).
Proof.
  unfold read_signature.
  destruct (read_header 0 t g) as [[sig g1]|e] eqn:E; [|discriminate].
  rewrite (read_header_app _ _ _ x _ _ E).
  destruct inc; [|intros H; inversion H; subst; reflexivity].
  destruct g1 as [|t' g2]; [discriminate|].
  destruct (read_docstring t' g2) as [[doc g3]|e] eqn:D; [|discriminate].
  rewrite <- app_comm_cons. rewrite (read_docstring_app _ _ x _ _ D).
  destruct (existsb is_string_tok doc); intros H; inversion H; subst; reflexivity.
Qed.

(** Scanning a prefix that extracts without failure, then the rest. *)
Lemma find_definitions_app (inc : bool) (pre rest : list token) (L : list (list token)) :
  find_definitions inc pre = of_list L ->
  find_definitions inc (pre ++ rest) = app_seq L (find_definitions inc rest).
Proof.
  remember (S (List.length pre)) as n eqn:En.
  assert (Hn : List.length pre < n) by lia. clear En.
  revert pre L Hn. induction n as [|n IH]; intros pre L Hn H; [lia|].
  destruct pre as [|t r].
  - destruct L; [reflexivity|discriminate].
  - rewrite <- app_comm_cons. rewrite find_definitions_eq.
    rewrite find_definitions_eq in H. simpl in Hn.
    destruct (is_def_kw t).
    + destruct (read_signature inc t r) as [[d r']|e] eqn:E;
        [|destruct L; discriminate].
      rewrite (read_signature_app _ _ _ rest _ _ E).
      destruct L as [|d0 L]; [discriminate|]. inversion H; subst.
      cbn [app_seq]. f_equal. apply IH; [|assumption].
      apply read_signature_shorter in E. lia.
    + apply IH; [lia|assumption].
Qed.

Lemma is_def_kw_not_colon (t : token) : is_def_kw t = true -> is_colon t = false.
Proof.
  rewrite is_def_kw_iff. unfold is_colon. destruct (exact_type t); simpl; congruence.
Qed.

Lemma read_header_exhausted (p : Z) (t : token) (g : list token) :
  colons_nested p (t :: g) = true -> read_header p t g = Err StreamExhausted.
Proof.
  revert p t. induction g as [|t' g IH]; intros p t H; cbn [colons_nested] in H;
    apply andb_prop in H; destruct H as [H1 H2]; cbn [read_header].
  - replace (negb (is_colon t) || (p >? 0)%Z) with true; [reflexivity|].
    symmetry. destruct (is_colon t); [|reflexivity].
    simpl in *. rewrite Z.gtb_ltb. exact H1.
  - replace (negb (is_colon t) || (p >? 0)%Z) with true.
    + rewrite (IH _ _ H2). reflexivity.
    + symmetry. destruct (is_colon t); [|reflexivity].
      simpl in *. rewrite Z.gtb_ltb. exact H1.
Qed.

Lemma filter_definitions_app_seq (m : DefType) (L L' : list (list token))
    (s : lazy_seq (list token)) :
  filter_definitions m (of_list L) = of_list L' ->
  filter_definitions m (app_seq L s) = app_seq L' (filter_definitions m s).
Proof.
  revert L'. induction L as [|d L IH]; intros L' H; cbn in H |- *.
  - destruct L'; [reflexivity|discriminate].
  - destruct (find_signature_name d) as [n|e]; [|destruct L'; discriminate].
    destruct (keeps m (tstring n)).
    + destruct L' as [|d' L']; [discriminate|]. inversion H; subst.
      cbn [app_seq]. f_equal. apply IH. assumption.
    + apply IH. assumption.
Qed.

Lemma render_all_app_seq (L : list (list token)) (s : lazy_seq (list token))
    (out : list string) :
  render_all (of_list L) = Ok out ->
  render_all (app_seq L s) =
  match render_all s with Ok o => Ok (out ++ o) | Err e => Err e end.
Proof.
  revert out. induction L as [|d L IH]; intros out H; cbn in H |- *.
  - inversion H; subst. destruct (render_all s); reflexivity.
  - destruct (render d) as [str|e]; [|discriminate].
    destruct (render_all (of_list L)) as [o|e] eqn:E; [|discriminate].
    inversion H; subst. rewrite (IH _ eq_refl).
    destruct (render_all s); reflexivity.
Qed.

Lemma render_all_filter_ok (m : DefType) (s : lazy_seq (list token)) (out : list string) :
  render_all (filter_definitions m s) = Ok out ->
  exists L L', s = of_list L /\ filter_definitions m s = of_list L' /\
               render_all (of_list L') = Ok out.
Proof.
  revert out. induction s as [|e|d s IH]; intros out H; cbn in H.
  - exists [], []. repeat split. exact H.
  - discriminate.
  - destruct (find_signature_name d) as [n|e] eqn:F; [|discriminate].
    destruct (keeps m (tstring n)) eqn:K.
    + cbn in H. destruct (render d) as [str|e] eqn:Rd; [|discriminate].
      destruct (render_all (filter_definitions m s)) as [o|e] eqn:R; [|discriminate].
      destruct (IH _ eq_refl) as [L [L' [E1 [E2 E3]]]].
      exists (d :: L), (d :: L'). subst s. cbn. rewrite F, K, E2.
      repeat split. cbn. rewrite Rd, E3. exact H.
    + destruct (IH _ H) as [L [L' [E1 [E2 E3]]]].
      exists (d :: L), L'. subst s. cbn. rewrite F, K. repeat split; assumption.
Qed.

(** C8: if a [def]/[class] keyword is reached by the scan (everything
    before it extracts without failure) and the stream ends before a colon
    at depth <= 0 follows it (every colon after it is nested in
    parentheses), the generator raises StreamExhausted right there, after
    the Definitions before it and none for this signature, and
    [module_api] fails with it: no partial list is returned. *)
Theorem exhausted_header_fails (m : DefType) (inc : bool) (pre : list token)
    (t : token) (post : list token) (out : list string) :
  module_api m inc pre = Ok out ->
  is_def_kw t = true ->
  colons_nested 0 (t :: post) = true ->
  module_api m inc (pre ++ t :: post) = Err StreamExhausted /\
  exists L, find_definitions inc (pre ++ t :: post) = app_seq L (LErr StreamExhausted).
Proof.
  intros Hpre Hk Hc. unfold module_api in *.
  destruct (render_all_filter_ok _ _ _ Hpre) as [L [L' [E1 [E2 E3]]]].
  assert (Et : find_definitions inc (t :: post) = LErr StreamExhausted).
  { rewrite find_definitions_eq, Hk. unfold read_signature.
    rewrite (read_header_exhausted _ _ _ Hc). reflexivity. }
  assert (Ef : find_definitions inc (pre ++ t :: post) = app_seq L (LErr StreamExhausted)).
  { rewrite (find_definitions_app _ _ _ _ E1). rewrite Et. reflexivity. }
  split; [|exists L; exact Ef].
  rewrite Ef. rewrite E1 in E2.
  rewrite (filter_definitions_app_seq _ _ _ _ E2).
  rewrite (render_all_app_seq _ _ _ E3). reflexivity.
Qed.

Lemma exhausted_header_fails_witness :
  module_api ALL true (removelast toks_g ++ tk NAME "def" 3 0 h_l3 :: tl toks_h_open)
    = Err StreamExhausted /\
  exists L, find_definitions true
              (removelast toks_g ++ tk NAME "def" 3 0 h_l3 :: tl toks_h_open)
            = app_seq L (LErr StreamExhausted).
Proof.
  apply (exhausted_header_fails ALL true (removelast toks_g)
           (tk NAME "def" 3 0 h_l3) (tl toks_h_open) ["def g():"]);
    vm_compute; reflexivity.
Defined.

(** *** Visibility filtering *)

Lemma filter_modes_of_all (s : lazy_seq (list token)) (L : list (list token)) :
  seq_to_result (filter_definitions ALL s) = Ok L ->
  seq_to_result (filter_definitions PUBLIC s) = Ok (List.filter (fun d => negb (is_private_def d)) L) /\
  seq_to_result (filter_definitions PRIVATE s) = Ok (List.filter is_private_def L).
Proof.
  revert L. induction s as [|e|d s IH]; intros L H; cbn in H |- *.
  - inversion H; subst. split; reflexivity.
  - discriminate.
  - destruct (find_signature_name d) as [n|e] eqn:F; [|discriminate].
    assert (P : is_private_def d = startswith_us (tstring n))
      by (unfold is_private_def; rewrite F; reflexivity).
    cbn in H. destruct (seq_to_result (filter_definitions ALL s)) as [L0|e] eqn:E;
      [|discriminate].
    inversion H; subst. destruct (IH _ eq_refl) as [IH1 IH2].
    cbn [List.filter]. rewrite P.
    destruct (startswith_us (tstring n)); cbn; rewrite ?IH1, ?IH2; split; reflexivity.
Qed.

(** C7: for one token stream and one docstring setting, when the ALL run
    succeeds with Definitions [L], the PUBLIC run keeps exactly those of [L]
    whose name does not start with [_] and the PRIVATE run exactly those
    whose name does, both in the order of [L]; the two are disjoint and
    together hold every Definition of [L]. *)
Theorem public_private_partition (inc : bool) (toks : list token)
    (L : list (list token)) :
  seq_to_result (filter_definitions ALL (find_definitions inc toks)) = Ok L ->
  let pub := List.filter (fun d => negb (is_private_def d)) L in
  let priv := List.filter is_private_def L in
  seq_to_result (filter_definitions PUBLIC (find_definitions inc toks)) = Ok pub /\
  seq_to_result (filter_definitions PRIVATE (find_definitions inc toks)) = Ok priv /\
  (forall d, In d pub -> In d priv -> False) /\
  (forall d, In d L <-> In d pub \/ In d priv).
Proof.
  intros H pub priv. destruct (filter_modes_of_all _ _ H) as [H1 H2].
  split; [exact H1|]. split; [exact H2|]. split.
  - intros d Hp Hq. unfold pub, priv in *.
    apply filter_In in Hp, Hq. destruct Hp as [_ Hp], Hq as [_ Hq].
    rewrite Hq in Hp. discriminate.
  - intros d. unfold pub, priv. rewrite !filter_In. split.
    + intros Hd. destruct (is_private_def d); [right|left]; split; auto.
    + intros [[Hd _]|[Hd _]]; exact Hd.
Qed.

Lemma public_private_partition_witness :
  seq_to_result (filter_definitions ALL (find_definitions true toks_hidden))
    = Ok [firstn 3 toks_hidden] /\
  seq_to_result (filter_definitions PUBLIC (find_definitions true toks_hidden)) = Ok [] /\
  seq_to_result (filter_definitions PRIVATE (find_definitions true toks_hidden))
    = Ok [firstn 3 toks_hidden].
Proof.
  assert (H : seq_to_result (filter_definitions ALL (find_definitions true toks_hidden))
                = Ok [firstn 3 toks_hidden]) by (vm_compute; reflexivity).
  destruct (public_private_partition true toks_hidden _ H) as [H1 [H2 _]].
  split; [exact H|]. split.
  - rewrite H1. vm_compute. reflexivity.
  - rewrite H2. vm_compute. reflexivity.
Defined.

Lemma find_signature_name_skip (pre rest : list token) :
  forallb (fun y => negb (is_def_kw y)) pre = true ->
  find_signature_name (pre ++ rest) = find_signature_name rest.
Proof.
  induction pre as [|y pre IH]; intros H; [reflexivity|].
  cbn in H. apply andb_prop in H. destruct H as [Hy H].
  cbn [app find_signature_name]. rewrite <- is_def_kw_iff.
  apply negb_true_iff in Hy. rewrite Hy. apply IH, H.
Qed.

(** C9 as amended: the filter takes as the name whatever token comes right
    after the first [def]/[class] NAME token of the Definition, NAME or
    not, and keeps or drops the Definition by that token's text; it fails
    only when nothing follows the keyword (the [StopIteration] of
    [next(_tokens)]) or when the Definition holds no [def]/[class] NAME
    token at all ([ValueError]). *)
Theorem signature_name_is_next_token (m : DefType) (s : lazy_seq (list token))
    (pre : list token) (k x : token) (post : list token) :
  forallb (fun y => negb (is_def_kw y)) pre = true ->
  is_def_kw k = true ->
  find_signature_name (pre ++ k :: x :: post) = Ok x /\
  filter_definitions m (LCons (pre ++ k :: x :: post) s) =
    (if keeps m (tstring x)
     then LCons (pre ++ k :: x :: post) (filter_definitions m s)
     else filter_definitions m s) /\
  filter_definitions m (LCons (pre ++ [k]) s) = LErr NameStopIteration /\
  filter_definitions m (LCons pre s) = LErr NoSignatureName.
Proof.
  intros Hpre Hk.
  assert (Hn : find_signature_name (pre ++ k :: x :: post) = Ok x).
  { rewrite (find_signature_name_skip _ _ Hpre). cbn [find_signature_name].
    rewrite <- is_def_kw_iff, Hk. reflexivity. }
  split; [exact Hn|]. split; [cbn [filter_definitions]; rewrite Hn; reflexivity|].
  split.
  - cbn [filter_definitions]. rewrite (find_signature_name_skip _ _ Hpre).
    cbn [find_signature_name]. rewrite <- is_def_kw_iff, Hk. reflexivity.
  - cbn [filter_definitions].
    rewrite <- (app_nil_r pre), (find_signature_name_skip _ _ Hpre). reflexivity.
Qed.

Lemma signature_name_is_next_token_witness :
  find_signature_name (firstn 4 toks_noname) = Ok (tk LPAR "(" 1 4 noname_l1) /\
  filter_definitions PUBLIC (LCons (firstn 4 toks_noname) LNil)
    = LCons (firstn 4 toks_noname) LNil.
Proof.
  destruct (signature_name_is_next_token PUBLIC LNil [] (tk NAME "def" 1 0 noname_l1)
              (tk LPAR "(" 1 4 noname_l1) (skipn 2 (firstn 4 toks_noname)))
    as [H1 [H2 _]]; [reflexivity|reflexivity|].
  split; [exact H1|]. exact H2.
Defined.

(** *** Rendering of a one-line header *)

Abbreviation la := list_ascii_of_string.















(** ** Further properties of the extraction *)

Lemma read_docstring_stop (t : token) (g doc rest : list token) :
  read_docstring t g = Ok (doc, rest) ->
  exists x, t :: g = doc ++ x :: rest /\ is_doc_tok x = false /\
            forallb is_doc_tok doc = true.
Proof.
  revert t doc. induction g as [|t' g IH]; intros t doc H; cbn [read_docstring] in H.
  - destruct (is_doc_tok t) eqn:D; inversion H; subst. exists t. auto.
  - destruct (is_doc_tok t) eqn:D.
    + destruct (read_docstring t' g) as [[s r]|e] eqn:E; inversion H; subst.
      destruct (IH _ _ E) as [x [Ex [Dx Fx]]].
      exists x. cbn. rewrite Ex, D, Fx. auto.
    + inversion H; subst. exists t. auto.
Qed.

Lemma read_docstring_all_doc (t : token) (g : list token) :
  forallb is_doc_tok (t :: g) = true -> read_docstring t g = Err StreamExhausted.
Proof.
  revert t. induction g as [|t' g IH]; intros t H; cbn in H;
    apply andb_prop in H; destruct H as [H1 H2]; cbn [read_docstring]; rewrite H1.
  - reflexivity.
  - rewrite (IH _ H2). reflexivity.
Qed.

Lemma read_docstring_some_stop (t : token) (g : list token) :
  forallb is_doc_tok (t :: g) = false ->
  exists doc rest, read_docstring t g = Ok (doc, rest).
Proof.
  revert t. induction g as [|t' g IH]; intros t H; cbn [read_docstring].
  - cbn in H. rewrite andb_true_r in H. rewrite H. eauto.
  - cbn [forallb] in H. destruct (is_doc_tok t); [|eauto].
    destruct (IH _ H) as [doc [rest E]]. rewrite E. eauto.
Qed.

(** Every Definition [read_signature] returns for a keyword runs from the
    keyword through a colon, then a (possibly empty) docstring run; the
    tokens it consumed but dropped come right after it. *)
Lemma read_signature_shape (inc : bool) (t : token) (g d r : list token) :
  is_def_kw t = true ->
  read_signature inc t g = Ok (d, r) ->
  exists mid c run skip,
    d = t :: mid ++ c :: run /\ is_colon c = true /\
    forallb is_doc_tok run = true /\ t :: g = d ++ skip ++ r.
Proof.
  intros Hk. unfold read_signature.
  destruct (read_header 0 t g) as [[sig g1]|e] eqn:E; [|discriminate].
  destruct (read_header_colon _ _ _ _ _ E) as [pre [c [Es [Eg [Hc _]]]]].
  destruct (read_header_suffix _ _ _ _ _ E) as [sig' [Es' _]].
  destruct pre as [|p0 mid].
  - cbn in Es. rewrite Es in Es'. inversion Es'; subst.
    rewrite (is_def_kw_not_colon _ Hk) in Hc. discriminate.
  - rewrite Es in Es'. inversion Es'; subst p0.
    destruct inc.
    + destruct g1 as [|t' g2]; [discriminate|].
      destruct (read_docstring t' g2) as [[doc g3]|e] eqn:D; [|discriminate].
      destruct (read_docstring_stop _ _ _ _ D) as [x [Ex [_ Fd]]].
      rewrite Ex in Eg.
      destruct (existsb is_string_tok doc); intros H; inversion H; subst.
      * exists mid, c, doc, [x]. rewrite <- ?app_assoc. cbn [app]. repeat split; auto.
        rewrite Eg. rewrite <- ?app_assoc. cbn [app]. rewrite <- ?app_assoc. reflexivity.
      * exists mid, c, [], (doc ++ [x]). repeat split; auto.
        rewrite Eg. rewrite <- ?app_assoc. cbn [app]. rewrite <- ?app_assoc. reflexivity.
    + intros H; inversion H; subst.
      exists mid, c, [], []. repeat split; auto. 
Qed.

Lemma scan_defs_shape (inc : bool) (toks d : list token) :
  in_seq d (find_definitions inc toks) ->
  exists pre post k mid c run,
    toks = pre ++ d ++ post /\ d = k :: mid ++ c :: run /\
    is_def_kw k = true /\ is_colon c = true /\ forallb is_doc_tok run = true.
Proof.
  remember (S (List.length toks)) as n eqn:En.
  assert (Hn : List.length toks < n) by lia. clear En.
  revert toks Hn. induction n as [|n IH]; intros toks Hn H; [lia|].
  destruct toks as [|t g]; [contradiction|].
  rewrite find_definitions_eq in H. cbn in Hn.
  destruct (is_def_kw t) eqn:K.
  - destruct (read_signature inc t g) as [[d0 r]|e] eqn:E; [|contradiction].
    destruct (read_signature_shape _ _ _ _ _ K E) as [mid [c [run [skip [Ed [Hc [Hr Eg]]]]]]].
    destruct H as [<- | H].
    + exists [], (skip ++ r), t, mid, c, run. repeat split; auto.
    + assert (Lr : List.length r < n).
      { apply (f_equal (@List.length token)) in Eg. rewrite !length_app in Eg.
        rewrite Ed in Eg. cbn in Eg. lia. }
      destruct (IH r Lr H) as [pre [post [k [mid' [c' [run' [Er [Ed' [Hk' [Hc' Hr']]]]]]]]]].
      exists (d0 ++ skip ++ pre), post, k, mid', c', run'.
      repeat split; auto. rewrite Eg, Er. rewrite <- !app_assoc. reflexivity.
  - assert (Lg : List.length g < n) by lia.
    destruct (IH g Lg H) as [pre [post [k [mid' [c' [run' [Er [Ed' [Hk' [Hc' Hr']]]]]]]]]].
    exists (t :: pre), post, k, mid', c', run'. repeat split; auto.
    rewrite Er. reflexivity.
Qed.

(** Extra: [_read_signature] with [include_docstring] reads the same header
    as without, then the run of [INDENT]/[NEWLINE]/[STRING] tokens after
    it, drops the first token that ends the run, and appends the run to the
    header exactly when it holds a [STRING] token. *)
Theorem docstring_run_after_header (t : token) (g sig r0 d r : list token) :
  read_signature false t g = Ok (sig, r0) ->
  read_signature true t g = Ok (d, r) ->
  exists run x,
    r0 = run ++ x :: r /\ forallb is_doc_tok run = true /\
    is_doc_tok x = false /\
    d = (if existsb is_string_tok run then sig ++ run else sig).
Proof.
  unfold read_signature.
  destruct (read_header 0 t g) as [[sig' g1]|e]; [|discriminate].
  intros H0; injection H0 as -> ->.
  destruct r0 as [|t' g2]; [discriminate|].
  destruct (read_docstring t' g2) as [[doc g3]|e] eqn:D; [|discriminate].
  destruct (read_docstring_stop _ _ _ _ D) as [x [Ex [Dx Fd]]].
  intros H1. exists doc, x.
  destruct (existsb is_string_tok doc); injection H1 as <- <-; repeat split; auto.
Qed.

Lemma docstring_run_after_header_witness :
  exists sig r0 d r,
    read_signature false (tk NAME "def" 1 0 foo_l1) (tl toks_foo) = Ok (sig, r0) /\
    read_signature true (tk NAME "def" 1 0 foo_l1) (tl toks_foo) = Ok (d, r) /\
    exists run x,
      r0 = run ++ x :: r /\ forallb is_doc_tok run = true /\
      is_doc_tok x = false /\
      d = (if existsb is_string_tok run then sig ++ run else sig).
Proof.
  do 4 eexists. split; [vm_compute; reflexivity|]. split; [vm_compute; reflexivity|].
  apply (docstring_run_after_header (tk NAME "def" 1 0 foo_l1) (tl toks_foo));
    vm_compute; reflexivity.
Defined.

(** Extra: once the header is read, looking for a docstring fails only when
    every token left is an [INDENT]/[NEWLINE]/[STRING] token (then with
    the exhausted-stream error); whenever some other token is left, such as
    the closing [ENDMARKER], it succeeds. *)
Theorem docstring_read_fails_only_at_end (t : token) (g sig r0 : list token) :
  read_signature false t g = Ok (sig, r0) ->
  (forallb is_doc_tok r0 = true -> read_signature true t g = Err StreamExhausted) /\
  (forallb is_doc_tok r0 = false -> exists d r, read_signature true t g = Ok (d, r)).
Proof.
  unfold read_signature.
  destruct (read_header 0 t g) as [[sig' g1]|e]; [|discriminate].
  intros H0; injection H0 as -> ->. split; intros F.
  - destruct r0 as [|t' g2]; [reflexivity|].
    rewrite (read_docstring_all_doc _ _ F). reflexivity.
  - destruct r0 as [|t' g2]; [discriminate|].
    destruct (read_docstring_some_stop _ _ F) as [doc [rest E]]. rewrite E.
    destruct (existsb is_string_tok doc); eauto.
Qed.

Lemma docstring_read_fails_only_at_end_witness :
  exists sig r0,
    read_signature false (tk NAME "def" 1 0 foo_l1) (tl toks_foo) = Ok (sig, r0) /\
    (forallb is_doc_tok r0 = true ->
     read_signature true (tk NAME "def" 1 0 foo_l1) (tl toks_foo) = Err StreamExhausted) /\
    (forallb is_doc_tok r0 = false ->
     exists d r, read_signature true (tk NAME "def" 1 0 foo_l1) (tl toks_foo) = Ok (d, r)).
Proof.
  do 2 eexists. split; [vm_compute; reflexivity|].
  eapply (docstring_read_fails_only_at_end (tk NAME "def" 1 0 foo_l1) (tl toks_foo)).
  vm_compute; reflexivity.
Defined.

(** Extra: every Definition [find_definitions] yields is a contiguous piece
    of the token stream that starts at a [def]/[class] keyword, reaches a
    colon, and ends with a (possibly empty) run of
    [INDENT]/[NEWLINE]/[STRING] tokens. *)
Theorem definitions_are_keyword_segments (inc : bool) (toks d : list token) :
  in_seq d (find_definitions inc toks) ->
  exists pre post k mid c run,
    toks = pre ++ d ++ post /\ d = k :: mid ++ c :: run /\
    is_def_kw k = true /\ is_colon c = true /\ forallb is_doc_tok run = true.
Proof. intros H. exact (scan_defs_shape inc toks d H). Qed.

Lemma definitions_are_keyword_segments_witness :
  in_seq (firstn 18 toks_foo) (find_definitions true toks_foo) /\
  exists pre post k mid c run,
    toks_foo = pre ++ firstn 18 toks_foo ++ post /\ firstn 18 toks_foo = k :: mid ++ c :: run /\
    is_def_kw k = true /\ is_colon c = true /\ forallb is_doc_tok run = true.
Proof.
  assert (H : in_seq (firstn 18 toks_foo) (find_definitions true toks_foo)).
  { vm_compute. left. reflexivity. }
  split; [exact H|]. exact (definitions_are_keyword_segments true toks_foo _ H).
Defined.

Lemma find_signature_name_segment (k : token) (mid run : list token) (c : token) :
  is_def_kw k = true ->
  exists x rest, mid ++ c :: run = x :: rest /\
                 find_signature_name (k :: mid ++ c :: run) = Ok x.
Proof.
  intros Hk. cbn [find_signature_name]. rewrite <- is_def_kw_iff, Hk.
  destruct mid as [|x mid]; cbn; eauto.
Qed.

Lemma filter_all_named (s : lazy_seq (list token)) :
  (forall d, in_seq d s -> exists x, find_signature_name d = Ok x) ->
  filter_definitions ALL s = s.
Proof.
  induction s as [| e | d s IH]; intros H; try reflexivity.
  cbn [filter_definitions].
  destruct (H d (or_introl eq_refl)) as [x Ex]. rewrite Ex. cbn [keeps].
  rewrite IH; [reflexivity|]. intros d' Hd'. apply H. right. exact Hd'.
Qed.

Lemma find_definitions_count_le (inc : bool) (toks : list token) :
  seq_count (find_definitions inc toks) <= List.length (List.filter is_def_kw toks).
Proof.
  remember (S (List.length toks)) as n eqn:En.
  assert (Hn : List.length toks < n) by lia. clear En.
  revert toks Hn. induction n as [|n IH]; intros toks Hn; [lia|].
  destruct toks as [|t g]; [cbn; lia|].
  rewrite find_definitions_eq. cbn in Hn. cbn [List.filter].
  destruct (is_def_kw t) eqn:K.
  - destruct (read_signature inc t g) as [[d r]|e] eqn:E; cbn [seq_count]; [|lia].
    destruct (read_signature_shape _ _ _ _ _ K E) as [mid [c [run [skip [Ed [_ [_ Eg]]]]]]].
    rewrite Ed in Eg.
    change (t :: g = t :: ((mid ++ c :: run) ++ skip ++ r)) in Eg.
    injection Eg as Eg. rewrite app_assoc in Eg.
    assert (Lr : List.length r < n).
    { apply (f_equal (@List.length token)) in Eg. rewrite !length_app in Eg. cbn in Eg. lia. }
    specialize (IH r Lr).
    rewrite Eg, filter_app. cbn [List.length]. rewrite length_app. lia.
  - apply IH. lia.
Qed.

(** Extra: [find_definitions] yields at most one Definition per [def]/[class]
    keyword token of the stream. *)
Theorem definitions_at_most_keywords (inc : bool) (toks : list token) :
  seq_count (find_definitions inc toks) <= List.length (List.filter is_def_kw toks).
Proof. exact (find_definitions_count_le inc toks). Qed.

(** Extra: [filter_definitions] never raises on what [find_definitions]
    yields: each Definition has a token after its keyword, and
    [_find_signature_name] returns that token, so in [ALL] mode the filter
    passes the scanner's stream through unchanged. *)
Theorem scanner_output_named (inc : bool) (toks : list token) :
  (forall d, in_seq d (find_definitions inc toks) ->
     exists k x rest, d = k :: x :: rest /\ find_signature_name d = Ok x) /\
  filter_definitions ALL (find_definitions inc toks) = find_definitions inc toks.
Proof.
  assert (N : forall d, in_seq d (find_definitions inc toks) ->
     exists k x rest, d = k :: x :: rest /\ find_signature_name d = Ok x).
  { intros d Hd.
    destruct (scan_defs_shape _ _ _ Hd) as [pre [post [k [mid [c [run [_ [Ed [Hk _]]]]]]]]].
    destruct (find_signature_name_segment k mid run c Hk) as [x [rest [Ex Fx]]].
    exists k, x, rest. rewrite Ed, <- Ex. auto. }
  split; [exact N|].
  apply filter_all_named. intros d Hd.
  destruct (N d Hd) as [k [x [rest [_ Fx]]]]. eauto.
Qed.

Lemma find_definitions_no_kw (inc : bool) (toks : list token) :
  forallb (fun t => negb (is_def_kw t)) toks = true ->
  find_definitions inc toks = LNil.
Proof.
  induction toks as [|t g IH]; intros H; [reflexivity|].
  cbn [forallb] in H. apply andb_prop in H. destruct H as [H1 H2].
  rewrite find_definitions_eq. destruct (is_def_kw t); [discriminate|]. auto.
Qed.

(** Extra: [find_definitions] yields nothing and stops cleanly exactly when
    the stream holds no [def]/[class] keyword token; [module_api] then
    returns the empty list in every mode. *)
Theorem no_keyword_no_definitions (m : DefType) (inc : bool) (toks : list token) :
  (find_definitions inc toks = LNil <->
   forallb (fun t => negb (is_def_kw t)) toks = true) /\
  (forallb (fun t => negb (is_def_kw t)) toks = true -> module_api m inc toks = Ok []).
Proof.
  pose proof (find_definitions_no_kw inc toks) as E.
  split; [split; [|exact E]|].
  - clear E. induction toks as [|t g IH]; intros H; [reflexivity|].
    rewrite find_definitions_eq in H. cbn [forallb].
    destruct (is_def_kw t).
    + destruct (read_signature inc t g) as [[d r]|e]; discriminate.
    + cbn [negb andb]. exact (IH H).
  - intros H. unfold module_api. rewrite (E H). destruct m; reflexivity.
Qed.

Lemma no_keyword_no_definitions_witness :
  forallb (fun t => negb (is_def_kw t)) (skipn 1 toks_foo) = true /\
  module_api PUBLIC true (skipn 1 toks_foo) = Ok [].
Proof.
  assert (H : forallb (fun t => negb (is_def_kw t)) (skipn 1 toks_foo) = true)
    by (vm_compute; reflexivity).
  split; [exact H|]. exact (proj2 (no_keyword_no_definitions PUBLIC true _) H).
Defined.

(** Extra: [module_api] composes over token streams: when it succeeds on a
    prefix, its result on the prefix followed by more tokens is the
    prefix's strings followed by the result on the rest, or the rest's
    error. *)
Theorem module_api_app (m : DefType) (inc : bool) (pre rest : list token)
    (o1 : list string) :
  module_api m inc pre = Ok o1 ->
  module_api m inc (pre ++ rest) =
  match module_api m inc rest with Ok o2 => Ok (o1 ++ o2) | Err e => Err e end.
Proof.
  unfold module_api. intros H.
  destruct (render_all_filter_ok _ _ _ H) as [L [L' [EL [EF ER]]]].
  rewrite (find_definitions_app _ _ rest _ EL).
  rewrite EL in EF. rewrite (filter_definitions_app_seq _ _ _ _ EF).
  exact (render_all_app_seq _ _ _ ER).
Qed.

Lemma module_api_app_witness :
  module_api ALL false toks_foo = Ok ["def foo(a, b=(1,2)):"] /\
  module_api ALL false (toks_foo ++ toks_cls) =
  match module_api ALL false toks_cls with Ok o2 => Ok (["def foo(a, b=(1,2)):"] ++ o2) | Err e => Err e end.
Proof.
  assert (H : module_api ALL false toks_foo = Ok ["def foo(a, b=(1,2)):"]) by (vm_compute; reflexivity).
  split; [exact H|]. exact (module_api_app ALL false toks_foo toks_cls _ H).
Defined.

Lemma handler_loop_app_err (fs : file_system) (m : DefType) (inc : bool)
    (pre post : list string) (f : string) (e : handler_error) :
  Forall (fun n => exists o, extract_file fs m inc n = HOk o) pre ->
  extract_file fs m inc f = HErr e ->
  handler_loop fs m inc (pre ++ f :: post) = HErr e.
Proof.
  intros Hp Hf. induction Hp as [|n pre [o Eo] _ IH]; cbn [app handler_loop].
  - rewrite Hf. reflexivity.
  - rewrite Eo, IH. reflexivity.
Qed.

Lemma handler_loop_ok (fs : file_system) (m : DefType) (inc : bool)
    (files : list string) (outs : list string) :
  handler_loop fs m inc files = HOk outs <->
  Forall2 (fun n b => extract_file fs m inc n = HOk b) files outs.
Proof.
  revert outs. induction files as [|n files IH]; intros outs; cbn [handler_loop].
  - split; intros H.
    + injection H as <-. constructor.
    + inversion H; reflexivity.
  - destruct (extract_file fs m inc n) as [b|e] eqn:E.
    + destruct (handler_loop fs m inc files) as [bs|e] eqn:L.
      * split; intros H.
        -- injection H as <-. constructor; [exact E|]. apply IH. reflexivity.
        -- inversion H as [|n' b' files' outs' Eb Hr]; subst.
           rewrite E in Eb. injection Eb as <-.
           apply IH in Hr. injection Hr as <-. reflexivity.
      * split; intros H; [discriminate|].
        inversion H as [|n' b' files' outs' Eb Hr]; subst.
        apply IH in Hr. discriminate.
    + split; intros H; [discriminate|].
      inversion H as [|n' b' files' outs' Eb Hr]; subst. congruence.
Qed.

Lemma extract_file_ok (fs : file_system) (m : DefType) (inc : bool) (n b : string) :
  extract_file fs m inc n = HOk b <->
  exists toks api, fs n = Some toks /\ module_api m inc toks = Ok api /\
                   b = String.concat sep2 (String.append "# " n :: api).
Proof.
  unfold extract_file. destruct (fs n) as [toks|].
  - destruct (module_api m inc toks) as [api|e0] eqn:M.
    + split.
      * intros H. injection H as <-. eauto.
      * intros [toks' [api' [E1 [E2 E3]]]]. injection E1 as <-.
        rewrite M in E2. injection E2 as <-. subst. reflexivity.
    + split; [discriminate|]. intros [toks' [api' [E1 [E2 E3]]]].
      injection E1 as <-. congruence.
  - split; [discriminate|]. intros [toks' [api' [E1 _]]]. discriminate.
Qed.

(** Extra: [handler] stops at the first file that cannot be opened or whose
    extraction raises, so nothing is printed; [main] then re-raises that
    exception with [--debug] and otherwise returns it as its message. *)
Theorem main_first_failure (fs : file_system) (ns : namespace)
    (pre post : list string) (f : string) (e : handler_error) :
  ns_files ns = pre ++ f :: post ->
  Forall (fun n => exists o, extract_file fs (ns_def_type ns) (ns_docstrings ns) n = HOk o) pre ->
  extract_file fs (ns_def_type ns) (ns_docstrings ns) f = HErr e ->
  main fs ns = if ns_debug ns then MRaise e else MReturnMsg e.
Proof.
  intros Ef Hp Hf. unfold main, handler. rewrite Ef.
  rewrite (handler_loop_app_err _ _ _ _ post _ _ Hp Hf). reflexivity.
Qed.

(** Extra: once [parse_args] has returned a namespace, [cli] exits with
    status 0 exactly when every file given opens and its extraction raises
    nothing. *)
Theorem cli_exit_zero_iff (fs : file_system) (ns : namespace) :
  cli_exit_status (main fs ns) = 0 <->
  Forall (fun n => exists o, extract_file fs (ns_def_type ns) (ns_docstrings ns) n = HOk o)
         (ns_files ns).
Proof.
  unfold main, handler.
  destruct (handler_loop fs (ns_def_type ns) (ns_docstrings ns) (ns_files ns)) as [outs|e] eqn:L.
  - cbn. split; [intros _|reflexivity].
    apply handler_loop_ok in L. clear - L.
    induction L; constructor; eauto.
  - cbn. split; intros H; [destruct (ns_debug ns); discriminate|exfalso].
    assert (Hall : exists outs, Forall2 (fun n b =>
              extract_file fs (ns_def_type ns) (ns_docstrings ns) n = HOk b) (ns_files ns) outs).
    { clear L. induction H as [|n files [o Eo] _ [outs IH]]; eauto. }
    destruct Hall as [outs Ho]. apply handler_loop_ok in Ho. congruence.
Qed.

(** Extra: on success [main] returns 0 having printed, line-feed terminated,
    the per-file blocks in the order the files were given, separated by a
    blank line; each block is the heading [# filename] followed by that
    file's definitions, again separated by blank lines. *)
Theorem main_success_output (fs : file_system) (ns : namespace) (code : nat) (out : string) :
  main fs ns = MReturn code out <->
  code = 0 /\
  exists blocks,
    Forall2 (fun n b => exists toks api,
               fs n = Some toks /\
               module_api (ns_def_type ns) (ns_docstrings ns) toks = Ok api /\
               b = String.concat sep2 (String.append "# " n :: api))
            (ns_files ns) blocks /\
    out = String.append (String.concat sep2 blocks) nl.
Proof.
  unfold main, handler.
  destruct (handler_loop fs (ns_def_type ns) (ns_docstrings ns) (ns_files ns)) as [outs|e] eqn:L.
  - apply handler_loop_ok in L. split.
    + intros H. injection H as <- <-. split; [reflexivity|].
      exists outs. split; [|reflexivity].
      eapply Forall2_impl; [|exact L]. intros n b Hb. apply extract_file_ok. exact Hb.
    + intros [-> [blocks [Hb ->]]].
      assert (Eb : blocks = outs).
      { clear - Hb L. revert outs L. induction Hb as [|n b files blocks Hnb _ IH];
          intros outs L; inversion L as [|n' b' files' outs' Eo Lr]; subst; [reflexivity|].
        apply extract_file_ok in Hnb. rewrite Hnb in Eo. injection Eo as <-. f_equal. auto. }
      subst. reflexivity.
  - split; [destruct (ns_debug ns); discriminate|].
    intros [_ [blocks [Hb _]]]. exfalso.
    assert (Ho : handler_loop fs (ns_def_type ns) (ns_docstrings ns) (ns_files ns) = HOk blocks).
    { apply handler_loop_ok. eapply Forall2_impl; [|exact Hb].
      intros n b Hnb. apply extract_file_ok. exact Hnb. }
    congruence.
Qed.

(** Extra: the block [handler] prints for a file with no [def]/[class]
    keyword token is the heading [# filename] alone, whatever the mode. *)
Theorem keyword_free_file_block (fs : file_system) (m : DefType) (inc : bool)
    (filename : string) (toks : list token) :
  fs filename = Some toks ->
  forallb (fun t => negb (is_def_kw t)) toks = true ->
  extract_file fs m inc filename = HOk (String.append "# " filename).
Proof.
  intros Hf Hk. unfold extract_file, module_api. rewrite Hf.
  rewrite (find_definitions_no_kw inc toks Hk). destruct m; reflexivity.
Qed.

Lemma main_first_failure_witness :
  main demo_fs demo_ns = MReturnMsg (FileNotFound "missing.py").
Proof.
  apply (main_first_failure demo_fs demo_ns ["a.py"] ["b.py"] "missing.py").
  - reflexivity.
  - constructor; [|constructor]. eexists. vm_compute. reflexivity.
  - vm_compute. reflexivity.
Defined.

Lemma keyword_free_file_block_witness :
  extract_file demo_fs PRIVATE true "b.py" = HOk "# b.py".
Proof.
  apply (keyword_free_file_block demo_fs PRIVATE true "b.py" toks_asg);
    vm_compute; reflexivity.
Defined.

Lemma render_all_ok_length (s : lazy_seq (list token)) (out : list string) :
  render_all s = Ok out -> List.length out = seq_count s.
Proof.
  revert out. induction s as [|e|d s IH]; intros out H; cbn [render_all] in H.
  - injection H as <-. reflexivity.
  - discriminate.
  - destruct (render d) as [u|e]; [|discriminate].
    destruct (render_all s) as [l|e]; [|discriminate].
    injection H as <-. cbn. rewrite (IH l eq_refl). reflexivity.
Qed.

Lemma filter_definitions_count_le (m : DefType) (s : lazy_seq (list token)) :
  seq_count (filter_definitions m s) <= seq_count s.
Proof.
  induction s as [|e|d s IH]; cbn [filter_definitions seq_count]; [lia|lia|].
  destruct (find_signature_name d) as [x|e]; cbn [seq_count]; [|lia].
  destruct (keeps m (tstring x)); cbn [seq_count]; lia.
Qed.

(** Extra: [module_api] returns at most one string per [def]/[class] keyword
    token of the source, in every mode. *)
Theorem module_api_at_most_keywords (m : DefType) (inc : bool) (toks : list token)
    (out : list string) :
  module_api m inc toks = Ok out ->
  List.length out <= List.length (List.filter is_def_kw toks).
Proof.
  unfold module_api. intros H.
  rewrite (render_all_ok_length _ _ H).
  pose proof (filter_definitions_count_le m (find_definitions inc toks)).
  pose proof (find_definitions_count_le inc toks). lia.
Qed.

Lemma module_api_at_most_keywords_witness :
  module_api ALL true toks_cls = Ok ["class A:"] /\
  List.length ["class A:"] <= List.length (List.filter is_def_kw toks_cls).
Proof.
  assert (H : module_api ALL true toks_cls = Ok ["class A:"]) by (vm_compute; reflexivity).
  split; [exact H|]. exact (module_api_at_most_keywords ALL true toks_cls _ H).
Defined.
